(** * rfid-backend: the field extractor and the reconcile cycle

    A shallow embedding of [models/wildApricotContact.go] and of the
    reconcile cycle of [main.go], with the properties of the field
    extractor ([ExtractTagID], [ExtractTrainingLabels],
    [ExtractContactData]) and of [updateDatabaseFromWildApricot]. *)

From Stdlib Require Import ZArith Ascii.
From stdpp Require Import base option list strings gmap.

Local Open Scope Z_scope.

(** ** Go values *)

(** The dynamic content of an [interface{}] as [encoding/json] produces it:
    [nil], [bool], [float64] (kept as its 64 bits), [string],
    [[]interface{}] and [map[string]interface{}]. *)
#[warnings="-register-all"]
Inductive Value : Type :=
| VNil
| VBool (b : bool)
| VFloat64 (bits : Z)
| VString (s : string)
| VSlice (items : list Value)
| VMap (m : gmap string Value).

(** The sentinel errors of [strconv]. *)
Inductive NumErr : Type :=
| ErrSyntax
| ErrRange.

(** The values of Go's [error] that the package builds, one constructor per
    [errors.New] / [fmt.Errorf] call site. *)
Inductive error : Type :=
| ErrTagIdNotString                               (* "TagId value is not a string" *)
| ErrTagIdConvert (e : NumErr)                    (* "failed to convert string TagId to int: %v" *)
| ErrTagIdNonPositive                             (* "TagId value is non-positive" *)
| ErrTrainingNotSlice                             (* "training value is not a slice" *)
| ErrTrainingItemNotMap                           (* "training item is not a map" *)
| ErrTrainingLabelNotString                       (* "training label is not a string" *)
| ErrExtractingTagId (contact : Z) (e : error)    (* "error extracting TagId for contact %d: %v" *)
| ErrExtractingLabels (contact : Z) (e : error).  (* "error extracting training labels for contact %d: %v" *)

(** ** The records of [models] *)

Record FieldValue : Type := mkFieldValue {
  FieldName : string;
  FValue : Value;
  SystemCode : string
}.

Record Contact : Type := mkContact {
  FirstName : string;
  LastName : string;
  Email : string;
  DisplayName : string;
  Organization : string;
  ProfileLastUpdated : string;
  FieldValues : list FieldValue;
  Id : Z;
  Url : string;
  IsAccountAdministrator : bool;
  TermsOfUseAccepted : bool;
  Status : string
}.

(** The fields of [config.Config] that the code under study reads. *)
Record Config : Type := mkConfig {
  DatabasePath : string;
  WildApricotAccountId : Z;
  TagIdFieldName : string;
  TrainingFieldName : string;
  CertFile : string;
  KeyFile : string
}.

(** ** [strconv.ParseInt]

    The package converts the tag id with [strconv.ParseInt(strVal, 10, 32)].
    [strconv] belongs to the Go standard library, not to the repository; the
    two functions below follow its code for an explicit base
    [2 <= base <= 36] and a bit size [0 < bitSize <= 64], which is the only
    way the package calls it (no base prefix, no underscores). Both return
    the pair (value, error) that the Go functions return. *)

Definition maxUint64 : Z := 2 ^ 64 - 1.

Definition uint64 (z : Z) : Z := z mod 2 ^ 64.

Definition uint32 (z : Z) : Z := z mod 2 ^ 32.

(** [int64(un)]: the two's complement reading of 64 bits. *)
Definition int64 (z : Z) : Z := (z + 2 ^ 63) mod 2 ^ 64 - 2 ^ 63.

Definition byte (c : ascii) : Z := Z.of_nat (nat_of_ascii c).

(** [lower(c)] of strconv: [c | ('x' - 'X')]. *)
Definition lower (c : Z) : Z := Z.lor c 32.

(** The digit of one byte, [None] where [ParseUint] reports a syntax error. *)
Definition digit (c : ascii) (base : Z) : option Z :=
  let b := byte c in
  let d :=
    if (byte "0" <=? b) && (b <=? byte "9") then Some (b - byte "0")
    else if (byte "a" <=? lower b) && (lower b <=? byte "z")
         then Some (lower b - byte "a" + 10)
         else None in
  match d with
  | Some d => if d >=? base then None else Some d
  | None => None
  end.

(** The loop [for _, c := range []byte(s)] of [ParseUint], with the
    accumulator [n]. *)
Fixpoint ParseUint_loop (s : string) (base cutoff maxVal n : Z) : Z * option NumErr :=
  match s with
  | EmptyString => (n, None)
  | String c rest =>
      match digit c base with
      | None => (0, Some ErrSyntax)
      | Some d =>
          if n >=? cutoff then (maxVal, Some ErrRange)
          else
            let n' := uint64 (n * base) in
            let n1 := uint64 (n' + d) in
            if (n1 <? n') || (n1 >? maxVal) then (maxVal, Some ErrRange)
            else ParseUint_loop rest base cutoff maxVal n1
      end
  end.

Definition ParseUint (s : string) (base bitSize : Z) : Z * option NumErr :=
  match s with
  | EmptyString => (0, Some ErrSyntax)
  | _ =>
      let cutoff := maxUint64 / base + 1 in
      let maxVal := uint64 (uint64 (Z.shiftl 1 bitSize) - 1) in
      ParseUint_loop s base cutoff maxVal 0
  end.

Definition ParseInt (s : string) (base bitSize : Z) : Z * option NumErr :=
  match s with
  | EmptyString => (0, Some ErrSyntax)
  | String c0 rest =>
      let '(neg, s') :=
        if Ascii.eqb c0 "+" then (false, rest)
        else if Ascii.eqb c0 "-" then (true, rest)
        else (false, s) in
      let '(un, err) := ParseUint s' base bitSize in
      match err with
      | Some ErrSyntax => (0, Some ErrSyntax)
      | _ =>
          let cutoff := uint64 (Z.shiftl 1 (bitSize - 1)) in
          if negb neg && (un >=? cutoff) then (int64 (cutoff - 1), Some ErrRange)
          else if neg && (un >? cutoff) then (int64 (- int64 cutoff), Some ErrRange)
          else
            let n := int64 un in
            (if neg then int64 (- n) else n, None)
      end
  end.

(** ** The field extractor *)

(** [parseTagId]. A nil [Value] and an empty string both give [0] and no
    error. *)
Definition parseTagId (fieldValue : FieldValue) : Z * option error :=
  match FValue fieldValue with
  | VNil => (0, None)
  | VString strVal =>
      if Z.of_nat (String.length strVal) <=? 0 then (uint32 0, None)
      else
        match ParseInt strVal 10 32 with
        | (_, Some err) => (0, Some (ErrTagIdConvert err))
        | (tagId, None) =>
            if tagId <=? 0 then (0, Some ErrTagIdNonPositive)
            else (uint32 tagId, None)
        end
  | _ => (0, Some ErrTagIdNotString)
  end.

(** The loop of [ExtractTagID] over [c.FieldValues]: the first field named
    [cfg.TagIdFieldName] decides. *)
Fixpoint ExtractTagID_loop (vals : list FieldValue) (cfg : Config) : Z * option error :=
  match vals with
  | [] => (0, None)
  | val :: rest =>
      if String.eqb (FieldName val) (TagIdFieldName cfg) then parseTagId val
      else ExtractTagID_loop rest cfg
  end.

Definition ExtractTagID (c : Contact) (cfg : Config) : Z * option error :=
  ExtractTagID_loop (FieldValues c) cfg.

(** [extractLabelFromTrainingMap]: [trainingMap["Label"].(string)]; a
    missing key reads as nil, which is not a string. *)
Definition extractLabelFromTrainingMap (trainingMap : gmap string Value)
  : string * option error :=
  match trainingMap !! "Label" with
  | Some (VString label) => (label, None)
  | _ => ("", Some ErrTrainingLabelNotString)
  end.

(** The loop of [parseTrainingLabels] with its accumulator [labels]
    ([labels = append(labels, label)]). The nil slice is the empty list; the
    code never builds an empty slice that is not nil. *)
Fixpoint parseTrainingLabels_loop (trainingValues : list Value) (labels : list string)
  : list string * option error :=
  match trainingValues with
  | [] => (labels, None)
  | t :: rest =>
      match t with
      | VMap trainingMap =>
          match extractLabelFromTrainingMap trainingMap with
          | (_, Some err) => ([], Some err)
          | (label, None) => parseTrainingLabels_loop rest (labels ++ [label])
          end
      | _ => ([], Some ErrTrainingItemNotMap)
      end
  end.

Definition parseTrainingLabels (fieldValue : FieldValue) : list string * option error :=
  match FValue fieldValue with
  | VSlice trainingValues => parseTrainingLabels_loop trainingValues []
  | _ => ([], Some ErrTrainingNotSlice)
  end.

Fixpoint ExtractTrainingLabels_loop (vals : list FieldValue) (cfg : Config)
  : list string * option error :=
  match vals with
  | [] => ([], None)
  | val :: rest =>
      if String.eqb (FieldName val) (TrainingFieldName cfg) then parseTrainingLabels val
      else ExtractTrainingLabels_loop rest cfg
  end.

Definition ExtractTrainingLabels (c : Contact) (cfg : Config) : list string * option error :=
  ExtractTrainingLabels_loop (FieldValues c) cfg.

(** [ExtractContactData] returns (contact id, tag id, labels, error). *)
Definition ExtractContactData (c : Contact) (cfg : Config)
  : Z * Z * list string * option error :=
  let '(tagID, err) := ExtractTagID c cfg in
  match err with
  | Some err => (0, 0, [], Some (ErrExtractingTagId (Id c) err))
  | None =>
      let '(trainingLabels, err) := ExtractTrainingLabels c cfg in
      let err :=
        match err with
        | Some err => Some (ErrExtractingLabels (Id c) err)
        | None => None
        end in
      (Id c, tagID, trainingLabels, err)
  end.

(** ** Notions used to state the properties *)

(** The first field of the list that carries the name [name]. *)
Definition fieldNamed (name : string) (vals : list FieldValue) : option FieldValue :=
  List.find (fun val => String.eqb (FieldName val) name) vals.

(** The label of a list item that is a record with a string ["Label"]. *)
Definition labelOf (item : Value) : option string :=
  match item with
  | VMap m =>
      match m !! "Label" with
      | Some (VString label) => Some label
      | _ => None
      end
  | _ => None
  end.

(** The number a string of decimal digits denotes, read from the
    accumulator [acc]; [None] when a byte is not a decimal digit. *)
Fixpoint decimal (s : string) (acc : Z) : option Z :=
  match s with
  | EmptyString => Some acc
  | String c rest =>
      if (byte "0" <=? byte c) && (byte c <=? byte "9")
      then decimal rest (10 * acc + (byte c - byte "0"))
      else None
  end.

(** ** The reconcile cycle of [main.go] *)

(** What the cycle writes with [log.Println] and [log.Printf]. *)
Inductive LogLine (E : Type) : Type :=
| LogFetching            (* "Fetching contacts from Wild Apricot and updating database..." *)
| LogFetchFailed (e : E) (* "Failed to fetch contacts: %v" *)
| LogUpdateFailed (e : E) (* "Failed to update database: %v" *)
| LogUpdated.            (* "Database successfully updated with latest WA contact data." *)
Arguments LogFetching {E}.
Arguments LogFetchFailed {E} e.
Arguments LogUpdateFailed {E} e.
Arguments LogUpdated {E}.

(** The calls the cycle makes, in the order it makes them. *)
Inductive Event (E : Type) : Type :=
| EvLog (l : LogLine E)
| EvGetContacts (accountId : Z)
| EvProcessContactsData (contacts : list Contact).
Arguments EvLog {E} l.
Arguments EvGetContacts {E} accountId.
Arguments EvProcessContactsData {E} contacts.

Section Cycle.
(** [Store] is the local database, [Remote] the upstream directory with
    the session of the service, [E] the errors of the services. The two
    methods of [services] are not among the sources and are taken as they
    are called: [GetContacts] returns the contact list and an error,
    [ProcessContactsData] an error; both may change what they reach. *)
Context {Store Remote E : Type}.

Record World : Type := mkWorld {
  store : Store;
  remote : Remote;
  trace : list (Event E)
}.

Variable GetContacts :
  Z -> Store * Remote -> (list Contact * option E) * (Store * Remote).
Variable ProcessContactsData :
  list Contact -> Store * Remote -> option E * (Store * Remote).

(** State passing over [World]. *)
Definition M (A : Type) : Type := World -> A * World.

Definition ret {A} (a : A) : M A := fun w => (a, w).

Definition bind {A B} (m : M A) (k : A -> M B) : M B :=
  fun w => let '(a, w') := m w in k a w'.

Local Notation "x <- m ;; k" := (bind m (fun x => k))
  (at level 100, m at next level, right associativity).
Local Notation "m ;;; k" := (bind m (fun _ => k))
  (at level 100, right associativity).

Definition emit (ev : Event E) : M unit :=
  fun w => (tt, mkWorld (store w) (remote w) (trace w ++ [ev])).

Definition log (l : LogLine E) : M unit := emit (EvLog l).

Definition callGetContacts (accountId : Z) : M (list Contact * option E) :=
  emit (EvGetContacts accountId) ;;;
  fun w =>
    let '(r, (st, rm)) := GetContacts accountId (store w, remote w) in
    (r, mkWorld st rm (trace w)).

Definition callProcessContactsData (contacts : list Contact) : M (option E) :=
  emit (EvProcessContactsData contacts) ;;;
  fun w =>
    let '(r, (st, rm)) := ProcessContactsData contacts (store w, remote w) in
    (r, mkWorld st rm (trace w)).

Definition updateDatabaseFromWildApricot (accountId : Z) : M unit :=
  log LogFetching ;;;
  r <- callGetContacts accountId ;;
  let '(contacts, err) := r in
  match err with
  | Some err => log (LogFetchFailed err)
  | None =>
      err <- callProcessContactsData contacts ;;
      match err with
      | Some err => log (LogUpdateFailed err)
      | None => log LogUpdated
      end
  end.

End Cycle.

Arguments World : clear implicits.
Arguments mkWorld {Store Remote E} store remote trace.

(** ** The background task of [main] *)

Section Scheduler.
Context {Store Remote E : Type}.

Variable GetContacts :
  Z -> Store * Remote -> (list Contact * option E) * (Store * Remote).
Variable ProcessContactsData :
  list Contact -> Store * Remote -> option E * (Store * Remote).

(** The goroutine that [main] starts, after it has received [ticks] ticks
    from [ticker.C]: [for range ticker.C { updateDatabaseFromWildApricot(
    wildApricotSvc, dbService, cfg.WildApricotAccountId) }]. The body runs
    to its end before the next tick is received. *)
Fixpoint backgroundTask (ticks : nat) (cfg : Config) (w : World Store Remote E)
  : World Store Remote E :=
  match ticks with
  | O => w
  | S ticks' =>
      backgroundTask ticks' cfg
        (snd (updateDatabaseFromWildApricot GetContacts ProcessContactsData
                (WildApricotAccountId cfg) w))
  end.

End Scheduler.

(** The calls of [GetContacts] for the account [accountId], and the calls of
    [ProcessContactsData], among the events of a trace. *)
Definition isGetContacts {E} (accountId : Z) (ev : Event E) : bool :=
  match ev with
  | EvGetContacts a => a =? accountId
  | _ => false
  end.

Definition isProcessContactsData {E} (ev : Event E) : bool :=
  match ev with
  | EvProcessContactsData _ => true
  | _ => false
  end.

(** ** Sample contacts *)

Definition sampleConfig : Config :=
  mkConfig "tags.db" 1 "TagId" "Trainings" "cert.pem" "key.pem".

Definition field (name : string) (v : Value) : FieldValue :=
  mkFieldValue name v "".

Definition contactOf (id : Z) (vals : list FieldValue) : Contact :=
  mkContact "Ada" "Byron" "" "" "" "" vals id "" false false "Active".

Definition trainingItem (label : string) : Value :=
  VMap (<["Id" := VFloat64 0]> (<["Label" := VString label]> ∅)).

(** Scenario of the spec: tag ["1023"], one training. *)
Definition contact1023 : Contact :=
  contactOf 1 [field "TagId" (VString "1023");
               field "Trainings" (VSlice [trainingItem "Laser"])].

(** A tag id field without a value, as JSON [null] decodes. *)
Definition contactNilTag : Contact :=
  contactOf 2 [field "TagId" VNil].

(** A training list with an item that has no label. *)
Definition contactBadTraining : Contact :=
  contactOf 3 [field "TagId" (VString "77");
               field "Trainings" (VSlice [trainingItem "Laser"; VMap ∅])].

(** Two fields carry the configured names twice. *)
Definition contactDuplicates : Contact :=
  contactOf 4 [field "Phone" (VString "555");
               field "TagId" (VString "12");
               field "Trainings" (VSlice [trainingItem "WoodShop"]);
               field "TagId" (VString "-5");
               field "Trainings" VNil].


(** A blank tag id, a negative one, one that is no number, and a tag id
    field that holds a number instead of a string. *)
Definition contactEmptyTag : Contact :=
  contactOf 5 [field "TagId" (VString "")].

Definition contactNegativeTag : Contact :=
  contactOf 6 [field "TagId" (VString "-5")].

Definition contactWordTag : Contact :=
  contactOf 7 [field "TagId" (VString "12a")].

Definition contactNumberTag : Contact :=
  contactOf 8 [field "TagId" (VFloat64 0)].

(** Neither configured field is in the list. *)
Definition contactNoFields : Contact :=
  contactOf 9 [field "Phone" (VString "555")].

(** A training field that holds a string, and one without a value. *)
Definition contactTrainingString : Contact :=
  contactOf 10 [field "Trainings" (VString "Laser")].

Definition contactNilTraining : Contact :=
  contactOf 11 [field "Trainings" VNil].

(** A directory that cannot be reached, and a store of tag ids with a
    service that writes every contact id into it. *)
Definition unreachableGetContacts (accountId : Z) (sr : list Z * bool)
  : (list Contact * option string) * (list Z * bool) :=
  (([], Some "connection refused"%string), (fst sr, false)).

Definition reachableGetContacts (accountId : Z) (sr : list Z * bool)
  : (list Contact * option string) * (list Z * bool) :=
  (([contact1023], None), (fst sr, true)).

Definition recordContactIds (contacts : list Contact) (sr : list Z * bool)
  : option string * (list Z * bool) :=
  (None, (fst sr ++ map Id contacts, snd sr)).

Definition sampleWorld : World (list Z) bool string :=
  mkWorld [41; 42] true [].

(** Tag ids with a plus sign and leading zeros, of the digit zero, and of
    the largest 32 bit unsigned number. *)
Definition contactPlusTag : Contact :=
  contactOf 14 [field "TagId" (VString "+0042")].

Definition contactZeroTag : Contact :=
  contactOf 15 [field "TagId" (VString "0")].

Definition contactWideTag : Contact :=
  contactOf 16 [field "TagId" (VString "4294967295")].

(** [contactDuplicates] without the fields of other names. *)
Definition contactTagFieldsOnly : Contact :=
  contactOf 17 [field "TagId" (VString "12"); field "TagId" (VString "-5")].

Definition contactTrainingFieldsOnly : Contact :=
  contactOf 18 [field "Trainings" (VSlice [trainingItem "WoodShop"]);
                field "Trainings" VNil].

(** A label twice, and a list whose second item is a string. *)
Definition contactTwoTrainings : Contact :=
  contactOf 19 [field "Trainings"
                  (VSlice [trainingItem "Laser"; trainingItem "WoodShop";
                           trainingItem "Laser"])].

Definition contactItemNotMap : Contact :=
  contactOf 20 [field "Trainings"
                  (VSlice [trainingItem "Laser"; VString "WoodShop"; VMap ∅])].

(** A configuration that names one field for both uses. *)
Definition collidingConfig : Config :=
  mkConfig "tags.db" 1 "TagId" "TagId" "cert.pem" "key.pem".

(** A database that refuses the write. *)
Definition failingProcess (contacts : list Contact) (sr : list Z * bool)
  : option string * (list Z * bool) :=
  (Some "database is locked"%string, sr).

(** * Properties *)

(** ** [strconv.ParseInt] on decimal numerals *)

Lemma uint64_small z : 0 <= z < 2 ^ 64 -> uint64 z = z.
Proof. intros H. unfold uint64. now apply Z.mod_small. Qed.

Lemma int64_small z : - 2 ^ 63 <= z < 2 ^ 63 -> int64 z = z.
Proof. intros H. unfold int64. rewrite Z.mod_small; lia. Qed.

Lemma uint32_small z : 0 <= z < 2 ^ 32 -> uint32 z = z.
Proof. intros H. unfold uint32. now apply Z.mod_small. Qed.

Lemma byte_range c : 0 <= byte c < 256.
Proof.
  unfold byte. pose proof (nat_ascii_bounded c). lia.
Qed.

(** A decimal digit is a digit of [ParseUint] in base 10. *)
Lemma digit_decimal c :
  (byte "0" <=? byte c) && (byte c <=? byte "9") = true ->
  digit c 10 = Some (byte c - byte "0").
Proof.
  intros H. unfold digit. rewrite H.
  apply andb_true_iff in H as [H0 H9].
  apply Z.leb_le in H0, H9. change (byte "9") with (byte "0" + 9) in H9.
  destruct (byte c - byte "0" >=? 10) eqn:Hge; [|done].
  apply Z.geb_le in Hge. lia.
Qed.

(** A sign is not a decimal digit. *)
Lemma decimal_digit_not_sign c :
  (byte "0" <=? byte c) && (byte c <=? byte "9") = true ->
  Ascii.eqb c "+" = false /\ Ascii.eqb c "-" = false.
Proof.
  intros H. split.
  - destruct (Ascii.eqb_spec c "+") as [->|]; [|done]. now vm_compute in H.
  - destruct (Ascii.eqb_spec c "-") as [->|]; [|done]. now vm_compute in H.
Qed.

Lemma decimal_ge s : forall acc v, 0 <= acc -> decimal s acc = Some v -> acc <= v.
Proof.
  induction s as [|c rest IH]; intros acc v Hacc Hd; simpl in Hd.
  - injection Hd as <-. lia.
  - destruct ((byte "0" <=? byte c) && (byte c <=? byte "9")) eqn:Hc; [|done].
    apply andb_true_iff in Hc as [H0 _]. apply Z.leb_le in H0.
    apply IH in Hd; lia.
Qed.

(** The loop of [ParseUint] on a string of decimal digits, for the 32 bit
    size: it returns the number the digits denote, or the range error as
    soon as the number exceeds [2^32 - 1]. *)
Lemma ParseUint_loop_decimal s : forall n v,
  0 <= n <= 2 ^ 32 - 1 ->
  decimal s n = Some v ->
  ParseUint_loop s 10 (maxUint64 / 10 + 1) (2 ^ 32 - 1) n =
    if v <=? 2 ^ 32 - 1 then (v, None) else (2 ^ 32 - 1, Some ErrRange).
Proof.
  induction s as [|c rest IH]; intros n v Hn Hd; simpl in Hd.
  - injection Hd as <-. simpl.
    destruct (n <=? 2 ^ 32 - 1) eqn:Hle; [done|]. apply Z.leb_gt in Hle. lia.
  - destruct ((byte "0" <=? byte c) && (byte c <=? byte "9")) eqn:Hc; [|done].
    cbn [ParseUint_loop]. rewrite (digit_decimal c Hc).
    apply andb_true_iff in Hc as [H0 H9]. apply Z.leb_le in H0, H9.
    change (byte "9") with (byte "0" + 9) in H9.
    set (d := byte c - byte "0") in *.
    assert (Hd9 : 0 <= d <= 9) by (unfold d; lia).
    assert (Hcut : maxUint64 / 10 + 1 = 1844674407370955162) by reflexivity.
    rewrite Hcut.
    destruct (n >=? 1844674407370955162) eqn:Hge.
    { apply Z.geb_le in Hge. lia. }
    cbv zeta.
    rewrite (uint64_small (n * 10)) by lia.
    rewrite (uint64_small (n * 10 + d)) by lia.
    destruct (n * 10 + d <? n * 10) eqn:Hlt.
    { apply Z.ltb_lt in Hlt. lia. }
    replace (10 * n + d) with (n * 10 + d) in Hd by lia.
    destruct (n * 10 + d >? 2 ^ 32 - 1) eqn:Hgt; cbn [orb].
    + apply Z.gtb_lt in Hgt.
      apply decimal_ge in Hd; [|lia].
      destruct (v <=? 2 ^ 32 - 1) eqn:Hle; [|done]. apply Z.leb_le in Hle. lia.
    + rewrite <- Hcut. apply IH; [|done].
      rewrite Z.gtb_ltb in Hgt. apply Z.ltb_ge in Hgt. lia.
Qed.

Lemma ParseUint_decimal s v :
  s <> EmptyString ->
  decimal s 0 = Some v ->
  ParseUint s 10 32 =
    if v <=? 2 ^ 32 - 1 then (v, None) else (2 ^ 32 - 1, Some ErrRange).
Proof.
  intros Hs Hd. destruct s as [|c rest]; [done|].
  unfold ParseUint.
  change (uint64 (uint64 (Z.shiftl 1 32) - 1)) with (2 ^ 32 - 1).
  apply ParseUint_loop_decimal; [lia | done].
Qed.

(** A non-empty string of decimal digits below [2^31] parses to the number
    it denotes. *)
Lemma ParseInt_decimal s v :
  s <> EmptyString ->
  decimal s 0 = Some v ->
  v < 2 ^ 31 ->
  ParseInt s 10 32 = (v, None).
Proof.
  intros Hs Hd Hv.
  pose proof (ParseUint_decimal s v Hs Hd) as HU.
  pose proof (decimal_ge s 0 v (Z.le_refl 0) Hd) as Hv0.
  destruct s as [|c rest]; [done|].
  assert (Hc : (byte "0" <=? byte c) && (byte c <=? byte "9") = true).
  { simpl in Hd. destruct (_ && _); [done | discriminate]. }
  destruct (decimal_digit_not_sign c Hc) as [Hp Hm].
  unfold ParseInt. rewrite Hp, Hm, HU.
  destruct (v <=? 2 ^ 32 - 1) eqn:Hle; [|apply Z.leb_gt in Hle; lia].
  change (uint64 (Z.shiftl 1 (32 - 1))) with (2 ^ 31).
  cbn [negb andb].
  destruct (v >=? 2 ^ 31) eqn:Hge; [apply Z.geb_le in Hge; lia|].
  rewrite int64_small by lia. done.
Qed.

(** A string of decimal digits that denotes [2^31] or more does not parse:
    [ParseInt] reports the range error. *)
Lemma ParseInt_decimal_out_of_range s v :
  s <> EmptyString ->
  decimal s 0 = Some v ->
  2 ^ 31 <= v ->
  ParseInt s 10 32 = (2 ^ 31 - 1, Some ErrRange).
Proof.
  intros Hs Hd Hv.
  pose proof (ParseUint_decimal s v Hs Hd) as HU.
  destruct s as [|c rest]; [done|].
  assert (Hc : (byte "0" <=? byte c) && (byte c <=? byte "9") = true).
  { simpl in Hd. destruct (_ && _); [done | discriminate]. }
  destruct (decimal_digit_not_sign c Hc) as [Hp Hm].
  unfold ParseInt. rewrite Hp, Hm, HU.
  change (uint64 (Z.shiftl 1 (32 - 1))) with (2 ^ 31).
  destruct (v <=? 2 ^ 32 - 1) eqn:Hle; cbn [negb andb].
  - destruct (v >=? 2 ^ 31) eqn:Hge; [done|].
    rewrite Z.geb_leb in Hge. apply Z.leb_gt in Hge. lia.
  - done.
Qed.

(** What the loop of [ParseUint] returns, whatever the bytes are. *)
Lemma ParseUint_loop_result s base cutoff maxVal : forall n un err,
  0 <= n <= maxVal ->
  ParseUint_loop s base cutoff maxVal n = (un, err) ->
  match err with
  | None => 0 <= un <= maxVal
  | Some ErrRange => un = maxVal
  | Some ErrSyntax => un = 0
  end.
Proof.
  induction s as [|c rest IH]; intros n un err Hn H; cbn [ParseUint_loop] in H.
  - injection H as <- <-. done.
  - destruct (digit c base) as [d|]; [|by injection H as <- <-].
    destruct (n >=? cutoff); [by injection H as <- <-|].
    cbv zeta in H.
    destruct (uint64 (uint64 (n * base) + d) <? uint64 (n * base)) eqn:Hlt;
      cbn [orb] in H; [by injection H as <- <-|].
    destruct (uint64 (uint64 (n * base) + d) >? maxVal) eqn:Hgt;
      [by injection H as <- <-|].
    apply IH in H; [done|].
    rewrite Z.gtb_ltb in Hgt. apply Z.ltb_ge in Hgt.
    split; [|done]. unfold uint64 at 1. apply Z.mod_pos_bound. lia.
Qed.

Lemma ParseUint_result s un err :
  ParseUint s 10 32 = (un, err) ->
  match err with
  | None => 0 <= un <= 2 ^ 32 - 1
  | Some ErrRange => un = 2 ^ 32 - 1
  | Some ErrSyntax => un = 0
  end.
Proof.
  unfold ParseUint. destruct s as [|c rest]; [by intros [= <- <-]|].
  change (uint64 (uint64 (Z.shiftl 1 32) - 1)) with (2 ^ 32 - 1).
  apply ParseUint_loop_result. lia.
Qed.

(** Where [ParseInt] reports no error, the value fits 32 signed bits. *)
Lemma ParseInt_ok_range s n :
  ParseInt s 10 32 = (n, None) -> - 2 ^ 31 <= n < 2 ^ 31.
Proof.
  unfold ParseInt. destruct s as [|c0 rest]; [done|].
  change (uint64 (Z.shiftl 1 (32 - 1))) with (2 ^ 31).
  assert (Hgen : forall neg s',
    (let '(un, err) := ParseUint s' 10 32 in
     match err with
     | Some ErrSyntax => (0, Some ErrSyntax)
     | _ =>
         if negb neg && (un >=? 2 ^ 31) then (int64 (2 ^ 31 - 1), Some ErrRange)
         else if neg && (un >? 2 ^ 31) then (int64 (- int64 (2 ^ 31)), Some ErrRange)
         else (if neg then int64 (- int64 un) else int64 un, None)
     end) = (n, None) -> - 2 ^ 31 <= n < 2 ^ 31).
  { intros neg s'. destruct (ParseUint s' 10 32) as [un err] eqn:HU.
    apply ParseUint_result in HU.
    destruct err as [[]|]; [done| |].
    - subst un. destruct neg; cbn; done.
    - destruct neg; cbn [negb andb].
      + destruct (un >? 2 ^ 31) eqn:Hgt; [done|].
        rewrite Z.gtb_ltb in Hgt. apply Z.ltb_ge in Hgt.
        intros [= <-]. rewrite (int64_small un) by lia. rewrite int64_small; lia.
      + destruct (un >=? 2 ^ 31) eqn:Hge; [done|].
        rewrite Z.geb_leb in Hge. apply Z.leb_gt in Hge.
        intros [= <-]. rewrite int64_small; lia. }
  destruct (Ascii.eqb c0 "+"); [apply Hgen|].
  destruct (Ascii.eqb c0 "-"); apply Hgen.
Qed.

(** ** Field lookup *)

Lemma ExtractTagID_fieldNamed c cfg :
  ExtractTagID c cfg =
    match fieldNamed (TagIdFieldName cfg) (FieldValues c) with
    | Some val => parseTagId val
    | None => (0, None)
    end.
Proof.
  unfold ExtractTagID, fieldNamed.
  induction (FieldValues c) as [|val rest IH]; simpl; [done|].
  destruct (String.eqb (FieldName val) (TagIdFieldName cfg)); done.
Qed.

Lemma ExtractTrainingLabels_fieldNamed c cfg :
  ExtractTrainingLabels c cfg =
    match fieldNamed (TrainingFieldName cfg) (FieldValues c) with
    | Some val => parseTrainingLabels val
    | None => ([], None)
    end.
Proof.
  unfold ExtractTrainingLabels, fieldNamed.
  induction (FieldValues c) as [|val rest IH]; simpl; [done|].
  destruct (String.eqb (FieldName val) (TrainingFieldName cfg)); done.
Qed.

(** No field of the list carries the name. *)
Lemma fieldNamed_absent name vals :
  (forall val, val ∈ vals -> FieldName val <> name) ->
  fieldNamed name vals = None.
Proof.
  unfold fieldNamed. induction vals as [|val rest IH]; intros H; simpl; [done|].
  destruct (String.eqb_spec (FieldName val) name) as [Heq|_].
  - exfalso. apply (H val); [left | done].
  - apply IH. intros x Hx. apply H. now right.
Qed.

(** The first field that carries the name, whatever follows it. *)
Lemma fieldNamed_first name pre val post :
  (forall x, x ∈ pre -> FieldName x <> name) ->
  FieldName val = name ->
  fieldNamed name (pre ++ val :: post) = Some val.
Proof.
  unfold fieldNamed. intros Hpre Hval.
  induction pre as [|x pre IH]; simpl.
  - destruct (String.eqb_spec (FieldName val) name); done.
  - destruct (String.eqb_spec (FieldName x) name) as [Heq|_].
    + exfalso. apply (Hpre x); [left | done].
    + apply IH. intros y Hy. apply Hpre. now right.
Qed.

Lemma fieldNamed_Some name vals val :
  fieldNamed name vals = Some val ->
  exists pre post,
    vals = pre ++ val :: post /\
    (forall x, x ∈ pre -> FieldName x <> name) /\
    FieldName val = name.
Proof.
  unfold fieldNamed. induction vals as [|x rest IH]; simpl; [done|].
  destruct (String.eqb_spec (FieldName x) name) as [Heq|Hne].
  - intros [= <-]. exists [], rest. split; [done|]. split; [|done].
    intros y Hy. by apply elem_of_nil in Hy.
  - intros H. destruct (IH H) as (pre & post & -> & Hpre & Hval).
    exists (x :: pre), post. split; [done|]. split; [|done].
    intros y Hy. apply elem_of_cons in Hy as [->|Hy]; [done | by apply Hpre].
Qed.

(** ** Training labels *)

Lemma extractLabelFromTrainingMap_labelOf m :
  extractLabelFromTrainingMap m =
    match labelOf (VMap m) with
    | Some label => (label, None)
    | None => (EmptyString, Some ErrTrainingLabelNotString)
    end.
Proof.
  unfold extractLabelFromTrainingMap, labelOf.
  destruct (m !! "Label"%string) as [[]|]; done.
Qed.

(** Every item is a record with a string label: the labels come back in the
    order of the list, after those already collected. *)
Lemma parseTrainingLabels_loop_labels items : forall acc labels,
  mapM labelOf items = Some labels ->
  parseTrainingLabels_loop items acc = (acc ++ labels, None).
Proof.
  induction items as [|t rest IH]; intros acc labels H.
  - injection H as <-. simpl. by rewrite app_nil_r.
  - rewrite mapM_Some in H. inversion H as [|? l ? ls Ht Hrest]; subst.
    apply mapM_Some in Hrest.
    destruct t as [| | | | |m]; try discriminate Ht.
    cbn [parseTrainingLabels_loop].
    rewrite extractLabelFromTrainingMap_labelOf, Ht.
    rewrite (IH _ ls Hrest). by rewrite <- app_assoc.
Qed.

(** One item is not a record with a string label: an error, and no label. *)
Lemma parseTrainingLabels_loop_bad items : forall acc item,
  item ∈ items ->
  labelOf item = None ->
  exists e, parseTrainingLabels_loop items acc = ([], Some e).
Proof.
  induction items as [|t rest IH]; intros acc item Hin Hbad.
  - by apply elem_of_nil in Hin.
  - cbn [parseTrainingLabels_loop].
    destruct t as [| | | | |m]; try (eexists; reflexivity).
    rewrite extractLabelFromTrainingMap_labelOf.
    destruct (labelOf (VMap m)) as [label|] eqn:Ht; [|eexists; reflexivity].
    apply elem_of_cons in Hin as [->|Hin]; [congruence|].
    by apply (IH _ item).
Qed.

(** An error of the loop never comes with labels. *)
Lemma parseTrainingLabels_loop_error items : forall acc labels e,
  parseTrainingLabels_loop items acc = (labels, Some e) -> labels = [].
Proof.
  induction items as [|t rest IH]; intros acc labels e H;
    cbn [parseTrainingLabels_loop] in H; [done|].
  destruct t as [| | | | |m]; try by injection H as <- _.
  destruct (extractLabelFromTrainingMap m) as [label [err|]].
  - by injection H as <- _.
  - by apply IH in H.
Qed.

Lemma ExtractTrainingLabels_error c cfg labels e :
  ExtractTrainingLabels c cfg = (labels, Some e) -> labels = [].
Proof.
  rewrite ExtractTrainingLabels_fieldNamed.
  destruct (fieldNamed _ _) as [val|]; [|done].
  unfold parseTrainingLabels.
  destruct (FValue val); try by intros [= <- _].
  apply parseTrainingLabels_loop_error.
Qed.

(** ** The tag id *)

(** C1, as the code has it. When the (first) field named by the
    configuration holds a non-empty string of decimal digits that denotes a
    positive integer [v] no greater than 2147483647 ([2^31 - 1], the
    largest value [strconv.ParseInt(s, 10, 32)] accepts), [ExtractTagID]
    returns [v] and no error; the conversion to uint32 loses nothing. *)
Theorem ExtractTagID_positive c cfg val s v :
  fieldNamed (TagIdFieldName cfg) (FieldValues c) = Some val ->
  FValue val = VString s ->
  s <> EmptyString ->
  decimal s 0 = Some v ->
  0 < v <= 2147483647 ->
  ExtractTagID c cfg = (v, None) /\ uint32 v = v.
Proof.
  intros Hval Hs Hne Hd Hv.
  assert (HP : ParseInt s 10 32 = (v, None)).
  { apply ParseInt_decimal; [done | done | lia]. }
  assert (Hu : uint32 v = v) by (apply uint32_small; lia).
  split; [|done].
  rewrite ExtractTagID_fieldNamed, Hval. unfold parseTagId. rewrite Hs.
  destruct s as [|c0 rest]; [done|].
  cbn [String.length]. rewrite Nat2Z.inj_succ.
  destruct (Z.succ _ <=? 0) eqn:Hlen; [apply Z.leb_le in Hlen; lia|].
  rewrite HP.
  destruct (v <=? 0) eqn:Hle; [apply Z.leb_le in Hle; lia|].
  by rewrite Hu.
Qed.

Lemma ExtractTagID_positive_witness :
  ExtractTagID contact1023 sampleConfig = (1023, None) /\ uint32 1023 = 1023.
Proof.
  apply (ExtractTagID_positive contact1023 sampleConfig
           (field "TagId" (VString "1023")) "1023" 1023).
  - reflexivity.
  - reflexivity.
  - discriminate.
  - reflexivity.
  - split; [reflexivity | discriminate].
Defined.

(** C1 as stated fails above [2^31 - 1]: the tag id field of
    [contactWideTag] is present and holds the non-empty decimal string
    ["4294967295"], which denotes a positive integer that fits a uint32,
    and [ExtractTagID] returns the range error of the conversion instead of
    that integer. *)
Lemma ExtractTagID_rejects_decimal_above_int32 :
  fieldNamed (TagIdFieldName sampleConfig) (FieldValues contactWideTag)
    = Some (field "TagId" (VString "4294967295")) /\
  "4294967295"%string <> EmptyString /\
  decimal "4294967295" 0 = Some 4294967295 /\
  0 < 4294967295 < 2 ^ 32 /\
  ExtractTagID contactWideTag sampleConfig
    = (0, Some (ErrTagIdConvert ErrRange)) /\
  ExtractTagID contactWideTag sampleConfig <> (4294967295, None).
Proof.
  split; [reflexivity|]. split; [discriminate|]. split; [reflexivity|].
  split; [split; reflexivity|]. split; [reflexivity|].
  vm_compute. discriminate.
Qed.

(** C2, as the code has it. When the (first) field named by the
    configuration holds a value that is neither nil nor a string,
    [ExtractTagID] fails: it returns 0 and the error "TagId value is not a
    string". *)
Theorem ExtractTagID_not_string c cfg val :
  fieldNamed (TagIdFieldName cfg) (FieldValues c) = Some val ->
  FValue val <> VNil ->
  (forall s, FValue val <> VString s) ->
  ExtractTagID c cfg = (0, Some ErrTagIdNotString).
Proof.
  intros Hval Hnil Hstr.
  rewrite ExtractTagID_fieldNamed, Hval. unfold parseTagId.
  destruct (FValue val) as [| | |s| |]; try done.
  by destruct (Hstr s).
Qed.

Lemma ExtractTagID_not_string_witness :
  ExtractTagID contactNumberTag sampleConfig = (0, Some ErrTagIdNotString).
Proof.
  apply (ExtractTagID_not_string contactNumberTag sampleConfig
           (field "TagId" (VFloat64 0))).
  - reflexivity.
  - discriminate.
  - intros s. discriminate.
Defined.

(** C2 as stated fails on a nil value: the tag id field of [contactNilTag]
    is present, its value is not a string, and [ExtractTagID] returns 0 with
    no error. *)
Lemma ExtractTagID_nil_value_is_no_error :
  fieldNamed (TagIdFieldName sampleConfig) (FieldValues contactNilTag)
    = Some (field "TagId" VNil) /\
  (forall s, FValue (field "TagId" VNil) <> VString s) /\
  ExtractTagID contactNilTag sampleConfig = (0, None).
Proof.
  split; [reflexivity|]. split; [|reflexivity].
  intros s. discriminate.
Qed.

(** C3. [ExtractTagID] returns 0 and no error when no field of the contact
    carries the configured name, and when the (first) field that carries it
    holds the empty string. *)
Theorem ExtractTagID_absent_or_empty c cfg :
  ((forall val, val ∈ FieldValues c -> FieldName val <> TagIdFieldName cfg) ->
   ExtractTagID c cfg = (0, None)) /\
  (forall val,
     fieldNamed (TagIdFieldName cfg) (FieldValues c) = Some val ->
     FValue val = VString EmptyString ->
     ExtractTagID c cfg = (0, None)).
Proof.
  split.
  - intros Habs. rewrite ExtractTagID_fieldNamed.
    by rewrite (fieldNamed_absent _ _ Habs).
  - intros val Hval Hs. rewrite ExtractTagID_fieldNamed, Hval.
    unfold parseTagId. by rewrite Hs.
Qed.

Lemma ExtractTagID_absent_or_empty_witness :
  ExtractTagID contactNoFields sampleConfig = (0, None) /\
  ExtractTagID contactEmptyTag sampleConfig = (0, None).
Proof.
  split.
  - apply (proj1 (ExtractTagID_absent_or_empty contactNoFields sampleConfig)).
    intros val Hin. apply list_elem_of_singleton in Hin. rewrite Hin.
    discriminate.
  - apply (proj2 (ExtractTagID_absent_or_empty contactEmptyTag sampleConfig)
             (field "TagId" (VString ""))); reflexivity.
Defined.

(** C4. When the (first) field named by the configuration holds a non-empty
    string that [strconv.ParseInt(s, 10, 32)] rejects, or parses to a value
    that is zero or negative, [ExtractTagID] returns an error. *)
Theorem ExtractTagID_malformed c cfg val s :
  fieldNamed (TagIdFieldName cfg) (FieldValues c) = Some val ->
  FValue val = VString s ->
  s <> EmptyString ->
  (snd (ParseInt s 10 32) <> None \/ fst (ParseInt s 10 32) <= 0) ->
  exists e, ExtractTagID c cfg = (0, Some e).
Proof.
  intros Hval Hs Hne Hbad.
  rewrite ExtractTagID_fieldNamed, Hval. unfold parseTagId. rewrite Hs.
  destruct s as [|c0 rest]; [done|].
  cbn [String.length]. rewrite Nat2Z.inj_succ.
  destruct (Z.succ _ <=? 0) eqn:Hlen; [apply Z.leb_le in Hlen; lia|].
  destruct (ParseInt (String c0 rest) 10 32) as [n [err|]]; cbn [fst snd] in Hbad.
  - by eexists.
  - destruct Hbad as [Hbad|Hbad]; [done|].
    apply Z.leb_le in Hbad. rewrite Hbad. by eexists.
Qed.

Lemma ExtractTagID_malformed_witness :
  (exists e, ExtractTagID contactNegativeTag sampleConfig = (0, Some e)) /\
  (exists e, ExtractTagID contactWordTag sampleConfig = (0, Some e)).
Proof.
  split.
  - apply (ExtractTagID_malformed contactNegativeTag sampleConfig
             (field "TagId" (VString "-5")) "-5").
    + reflexivity.
    + reflexivity.
    + discriminate.
    + right. vm_compute. discriminate.
  - apply (ExtractTagID_malformed contactWordTag sampleConfig
             (field "TagId" (VString "12a")) "12a").
    + reflexivity.
    + reflexivity.
    + discriminate.
    + left. vm_compute. discriminate.
Defined.

(** ** The training labels *)

(** C5. [ExtractTrainingLabels] returns no label and no error when no field
    carries the configured name; it fails when the (first) field that
    carries it does not hold a list; and when one item of the list is not a
    record with a string ["Label"] it fails and returns no label at all,
    whatever the other items are. *)
Theorem ExtractTrainingLabels_all_or_nothing c cfg :
  ((forall val, val ∈ FieldValues c -> FieldName val <> TrainingFieldName cfg) ->
   ExtractTrainingLabels c cfg = ([], None)) /\
  (forall val,
     fieldNamed (TrainingFieldName cfg) (FieldValues c) = Some val ->
     (forall items, FValue val <> VSlice items) ->
     ExtractTrainingLabels c cfg = ([], Some ErrTrainingNotSlice)) /\
  (forall val items item,
     fieldNamed (TrainingFieldName cfg) (FieldValues c) = Some val ->
     FValue val = VSlice items ->
     item ∈ items ->
     labelOf item = None ->
     exists e, ExtractTrainingLabels c cfg = ([], Some e)).
Proof.
  repeat split.
  - intros Habs. rewrite ExtractTrainingLabels_fieldNamed.
    by rewrite (fieldNamed_absent _ _ Habs).
  - intros val Hval Hns. rewrite ExtractTrainingLabels_fieldNamed, Hval.
    unfold parseTrainingLabels.
    destruct (FValue val) as [| | | |items|]; try done.
    by destruct (Hns items).
  - intros val items item Hval Hv Hin Hbad.
    rewrite ExtractTrainingLabels_fieldNamed, Hval.
    unfold parseTrainingLabels. rewrite Hv.
    by apply (parseTrainingLabels_loop_bad items [] item).
Qed.

Lemma ExtractTrainingLabels_all_or_nothing_witness :
  ExtractTrainingLabels contactNoFields sampleConfig = ([], None) /\
  ExtractTrainingLabels contactTrainingString sampleConfig
    = ([], Some ErrTrainingNotSlice) /\
  (exists e, ExtractTrainingLabels contactBadTraining sampleConfig = ([], Some e)).
Proof.
  split; [|split].
  - apply (proj1 (ExtractTrainingLabels_all_or_nothing contactNoFields sampleConfig)).
    intros val Hin. apply list_elem_of_singleton in Hin. rewrite Hin.
    discriminate.
  - apply (proj1 (proj2 (ExtractTrainingLabels_all_or_nothing
                           contactTrainingString sampleConfig))
             (field "Trainings" (VString "Laser"))).
    + reflexivity.
    + intros items. discriminate.
  - apply (proj2 (proj2 (ExtractTrainingLabels_all_or_nothing
                           contactBadTraining sampleConfig))
             (field "Trainings" (VSlice [trainingItem "Laser"; VMap ∅]))
             [trainingItem "Laser"; VMap ∅] (VMap ∅)).
    + reflexivity.
    + reflexivity.
    + apply elem_of_cons. right. apply elem_of_cons. by left.
    + reflexivity.
Defined.

(** ** The two extractors together *)

(** C6. When [ExtractTagID] fails, [ExtractContactData] returns at once
    with the zero contact id, the zero tag id, no label and the wrapped
    error. When [ExtractTagID] succeeds and [ExtractTrainingLabels] fails,
    it returns the contact id, the tag id that was extracted, no label and
    the wrapped error. *)
Theorem ExtractContactData_errors c cfg :
  (forall tagID e,
     ExtractTagID c cfg = (tagID, Some e) ->
     ExtractContactData c cfg = (0, 0, [], Some (ErrExtractingTagId (Id c) e))) /\
  (forall tagID labels e,
     ExtractTagID c cfg = (tagID, None) ->
     ExtractTrainingLabels c cfg = (labels, Some e) ->
     ExtractContactData c cfg
       = (Id c, tagID, [], Some (ErrExtractingLabels (Id c) e))).
Proof.
  split.
  - intros tagID e Htag. unfold ExtractContactData. by rewrite Htag.
  - intros tagID labels e Htag Hlab. unfold ExtractContactData.
    rewrite Htag, Hlab.
    by rewrite (ExtractTrainingLabels_error c cfg labels e Hlab).
Qed.

Lemma ExtractContactData_errors_witness :
  ExtractContactData contactNegativeTag sampleConfig
    = (0, 0, [], Some (ErrExtractingTagId 6 ErrTagIdNonPositive)) /\
  ExtractContactData contactBadTraining sampleConfig
    = (3, 77, [], Some (ErrExtractingLabels 3 ErrTrainingLabelNotString)).
Proof.
  split.
  - apply (proj1 (ExtractContactData_errors contactNegativeTag sampleConfig) 0).
    reflexivity.
  - apply (proj2 (ExtractContactData_errors contactBadTraining sampleConfig) 77 []).
    + reflexivity.
    + reflexivity.
Defined.

(** ** Fields that carry the same name *)

(** C9. Of several fields with the configured name, the first one in the
    order of the list decides, for the tag id and for the training labels:
    the result is what [parseTagId] (or [parseTrainingLabels]) makes of that
    field, whatever fields follow it. *)
Theorem first_matching_field_decides c cfg :
  (forall pre val post,
     FieldValues c = pre ++ val :: post ->
     (forall x, x ∈ pre -> FieldName x <> TagIdFieldName cfg) ->
     FieldName val = TagIdFieldName cfg ->
     ExtractTagID c cfg = parseTagId val) /\
  (forall pre val post,
     FieldValues c = pre ++ val :: post ->
     (forall x, x ∈ pre -> FieldName x <> TrainingFieldName cfg) ->
     FieldName val = TrainingFieldName cfg ->
     ExtractTrainingLabels c cfg = parseTrainingLabels val).
Proof.
  split; intros pre val post Hc Hpre Hval.
  - rewrite ExtractTagID_fieldNamed, Hc.
    by rewrite (fieldNamed_first _ pre val post Hpre Hval).
  - rewrite ExtractTrainingLabels_fieldNamed, Hc.
    by rewrite (fieldNamed_first _ pre val post Hpre Hval).
Qed.

Lemma first_matching_field_decides_witness :
  ExtractTagID contactDuplicates sampleConfig
    = parseTagId (field "TagId" (VString "12")) /\
  ExtractTrainingLabels contactDuplicates sampleConfig
    = parseTrainingLabels (field "Trainings" (VSlice [trainingItem "WoodShop"])).
Proof.
  split.
  - apply (proj1 (first_matching_field_decides contactDuplicates sampleConfig)
             [field "Phone" (VString "555")]
             (field "TagId" (VString "12"))
             [field "Trainings" (VSlice [trainingItem "WoodShop"]);
              field "TagId" (VString "-5");
              field "Trainings" VNil]).
    + reflexivity.
    + intros x Hx. apply list_elem_of_singleton in Hx. rewrite Hx. discriminate.
    + reflexivity.
  - apply (proj2 (first_matching_field_decides contactDuplicates sampleConfig)
             [field "Phone" (VString "555"); field "TagId" (VString "12")]
             (field "Trainings" (VSlice [trainingItem "WoodShop"]))
             [field "TagId" (VString "-5"); field "Trainings" VNil]).
    + reflexivity.
    + intros x Hx. apply elem_of_cons in Hx. destruct Hx as [Hx|Hx].
      * rewrite Hx. discriminate.
      * apply list_elem_of_singleton in Hx. rewrite Hx. discriminate.
    + reflexivity.
Defined.

(** ** A field without a value *)

(** C10. A field that is present with a nil value is read differently by
    the two extractors: as a tag id it gives 0 and no error, as a training
    list it gives the error "training value is not a slice". *)
Theorem nil_value_asymmetry c cfg :
  (forall val,
     fieldNamed (TagIdFieldName cfg) (FieldValues c) = Some val ->
     FValue val = VNil ->
     ExtractTagID c cfg = (0, None)) /\
  (forall val,
     fieldNamed (TrainingFieldName cfg) (FieldValues c) = Some val ->
     FValue val = VNil ->
     ExtractTrainingLabels c cfg = ([], Some ErrTrainingNotSlice)).
Proof.
  split; intros val Hval Hnil.
  - rewrite ExtractTagID_fieldNamed, Hval. unfold parseTagId. by rewrite Hnil.
  - rewrite ExtractTrainingLabels_fieldNamed, Hval.
    unfold parseTrainingLabels. by rewrite Hnil.
Qed.

Lemma nil_value_asymmetry_witness :
  ExtractTagID contactNilTag sampleConfig = (0, None) /\
  ExtractTrainingLabels contactNilTraining sampleConfig
    = ([], Some ErrTrainingNotSlice).
Proof.
  split.
  - apply (proj1 (nil_value_asymmetry contactNilTag sampleConfig)
             (field "TagId" VNil)); reflexivity.
  - apply (proj2 (nil_value_asymmetry contactNilTraining sampleConfig)
             (field "Trainings" VNil)); reflexivity.
Defined.

(** ** The reconcile cycle *)

(** When the fetch succeeds the cycle hands the contacts to
    [ProcessContactsData], and the Store is what that call returns. *)
Lemma updateDatabaseFromWildApricot_fetched {Store Remote E}
    (GetContacts : Z -> Store * Remote -> (list Contact * option E) * (Store * Remote))
    (ProcessContactsData : list Contact -> Store * Remote -> option E * (Store * Remote))
    (accountId : Z) (w : World Store Remote E) contacts st rm r st' rm' :
  GetContacts accountId (store w, remote w) = ((contacts, None), (st, rm)) ->
  ProcessContactsData contacts (st, rm) = (r, (st', rm')) ->
  updateDatabaseFromWildApricot GetContacts ProcessContactsData accountId w =
    (tt, mkWorld st' rm'
           (trace w ++ [EvLog LogFetching; EvGetContacts accountId;
                        EvProcessContactsData contacts;
                        EvLog (match r with
                               | Some e => LogUpdateFailed e
                               | None => LogUpdated
                               end)])).
Proof.
  intros HG HP.
  unfold updateDatabaseFromWildApricot, callGetContacts, callProcessContactsData,
    log, emit, bind. cbn. rewrite HG. cbn. rewrite HP.
  destruct r; cbn; by rewrite <- !app_assoc.
Qed.

(** C7. When [GetContacts] returns an error, the cycle logs the failure and
    returns: the calls it made are the fetch and two log lines, none of them
    [ProcessContactsData], and the Store is the one the fetch returned, so
    nothing is written after the failed fetch; a fetch that did not touch
    the Store leaves it as it was before the cycle. *)
Theorem fetch_failure_ends_cycle {Store Remote E}
    (GetContacts : Z -> Store * Remote -> (list Contact * option E) * (Store * Remote))
    (ProcessContactsData : list Contact -> Store * Remote -> option E * (Store * Remote))
    (accountId : Z) (w : World Store Remote E) contacts e st rm :
  GetContacts accountId (store w, remote w) = ((contacts, Some e), (st, rm)) ->
  let w' := snd (updateDatabaseFromWildApricot
                   GetContacts ProcessContactsData accountId w) in
  trace w' = trace w ++ [EvLog LogFetching; EvGetContacts accountId;
                         EvLog (LogFetchFailed e)] /\
  (forall cs, EvProcessContactsData cs ∉ drop (length (trace w)) (trace w')) /\
  store w' = st /\
  (st = store w -> store w' = store w).
Proof.
  intros HG.
  assert (Hrun : updateDatabaseFromWildApricot
                   GetContacts ProcessContactsData accountId w =
                 (tt, mkWorld st rm
                        (trace w ++ [EvLog LogFetching; EvGetContacts accountId;
                                     EvLog (LogFetchFailed e)]))).
  { unfold updateDatabaseFromWildApricot, callGetContacts, log, emit, bind.
    cbn. rewrite HG. cbn. by rewrite <- !app_assoc. }
  rewrite Hrun. cbn. repeat split; [|done..].
  intros cs. rewrite drop_app_length.
  rewrite !elem_of_cons, elem_of_nil. intros [H|[H|[H|[]]]]; discriminate H.
Qed.

Lemma fetch_failure_ends_cycle_witness :
  let w' := snd (updateDatabaseFromWildApricot
                   unreachableGetContacts recordContactIds 1 sampleWorld) in
  trace w' = [EvLog LogFetching; EvGetContacts 1;
              EvLog (LogFetchFailed "connection refused"%string)] /\
  (forall cs, EvProcessContactsData cs ∉ drop 0 (trace w')) /\
  store w' = [41; 42] /\
  ([41; 42] = store sampleWorld -> store w' = store sampleWorld).
Proof.
  apply (fetch_failure_ends_cycle unreachableGetContacts recordContactIds 1
           sampleWorld [] "connection refused"%string [41; 42] false).
  reflexivity.
Defined.

(** ** Decimal tag ids, and the scenarios of the specification *)

(** X2. A tag id field of decimal digits, leading zeros allowed, that
    denotes a number from 1 to [2^31 - 1] gives that number and no error. *)
Lemma ExtractTagID_decimal c cfg val s v :
  fieldNamed (TagIdFieldName cfg) (FieldValues c) = Some val ->
  FValue val = VString s ->
  s <> EmptyString ->
  decimal s 0 = Some v ->
  0 < v < 2 ^ 31 ->
  ExtractTagID c cfg = (v, None).
Proof.
  intros Hval Hs Hne Hd Hv.
  assert (HP : ParseInt s 10 32 = (v, None)) by (apply ParseInt_decimal; lia || done).
  rewrite ExtractTagID_fieldNamed, Hval. unfold parseTagId. rewrite Hs, HP.
  destruct s as [|c0 rest]; [done|].
  cbn [String.length]. rewrite Nat2Z.inj_succ.
  destruct (Z.succ _ <=? 0) eqn:Hlen; [apply Z.leb_le in Hlen; lia|].
  destruct (v <=? 0) eqn:Hle; [apply Z.leb_le in Hle; lia|].
  rewrite uint32_small; [done | lia].
Qed.

(** X3. Decimal digits that denote [2^31] or more are rejected by the 32
    bit conversion, also where the number would fit a uint32: the tag id
    is 0 and the error wraps the range error of [strconv]. *)
Lemma ExtractTagID_decimal_out_of_range c cfg val s v :
  fieldNamed (TagIdFieldName cfg) (FieldValues c) = Some val ->
  FValue val = VString s ->
  s <> EmptyString ->
  decimal s 0 = Some v ->
  2 ^ 31 <= v ->
  ExtractTagID c cfg = (0, Some (ErrTagIdConvert ErrRange)).
Proof.
  intros Hval Hs Hne Hd Hv.
  rewrite ExtractTagID_fieldNamed, Hval. unfold parseTagId. rewrite Hs.
  rewrite (ParseInt_decimal_out_of_range s v Hne Hd Hv).
  destruct s as [|c0 rest]; [done|].
  cbn [String.length]. rewrite Nat2Z.inj_succ.
  destruct (Z.succ _ <=? 0) eqn:Hlen; [apply Z.leb_le in Hlen; lia|done].
Qed.

(** X9. When every item of the training list is a record with a string
    ["Label"], [ExtractTrainingLabels] returns the labels one per item, in
    the order of the list and with repetitions kept, and no error. *)
Lemma ExtractTrainingLabels_labels c cfg val items labels :
  fieldNamed (TrainingFieldName cfg) (FieldValues c) = Some val ->
  FValue val = VSlice items ->
  mapM labelOf items = Some labels ->
  ExtractTrainingLabels c cfg = (labels, None).
Proof.
  intros Hval Hv Hl.
  rewrite ExtractTrainingLabels_fieldNamed, Hval.
  unfold parseTrainingLabels. rewrite Hv.
  by rewrite (parseTrainingLabels_loop_labels items [] labels Hl).
Qed.

Example scenario_contact_1023 :
  ExtractContactData contact1023 sampleConfig = (1, 1023, ["Laser"%string], None).
Proof. reflexivity. Qed.

Example scenario_blank_tag :
  ExtractContactData contactEmptyTag sampleConfig = (5, 0, [], None).
Proof. reflexivity. Qed.

Example scenario_negative_tag :
  ExtractTagID contactNegativeTag sampleConfig = (0, Some ErrTagIdNonPositive).
Proof. reflexivity. Qed.

Example scenario_tag_above_int32 :
  ExtractTagID (contactOf 12 [field "TagId" (VString "2147483648")]) sampleConfig
    = (0, Some (ErrTagIdConvert ErrRange)).
Proof. reflexivity. Qed.

Example scenario_signed_tag :
  ExtractTagID (contactOf 13 [field "TagId" (VString "+5")]) sampleConfig = (5, None).
Proof. reflexivity. Qed.

Example scenario_cycle_fetched :
  updateDatabaseFromWildApricot reachableGetContacts recordContactIds 1 sampleWorld
    = (tt, mkWorld [41; 42; 1] true
             [EvLog LogFetching; EvGetContacts 1;
              EvProcessContactsData [contact1023]; EvLog LogUpdated]).
Proof.
  apply (updateDatabaseFromWildApricot_fetched reachableGetContacts recordContactIds
           1 sampleWorld [contact1023] [41; 42] true None [41; 42; 1] true);
    reflexivity.
Qed.

(** ** What [strconv.ParseInt] accepts *)

(** A digit of [ParseUint] in base 10 is a decimal digit: the letters that
    other bases accept are refused. *)
Lemma digit_10_inv c d :
  digit c 10 = Some d ->
  (byte "0" <=? byte c) && (byte c <=? byte "9") = true /\ d = byte c - byte "0".
Proof.
  unfold digit.
  destruct ((byte "0" <=? byte c) && (byte c <=? byte "9")) eqn:Hc.
  - destruct (byte c - byte "0" >=? 10); [done|]. by intros [= <-].
  - destruct ((byte "a" <=? lower (byte c)) && (lower (byte c) <=? byte "z")) eqn:Hl;
      [|done].
    apply andb_true_iff in Hl as [Ha _]. apply Z.leb_le in Ha.
    destruct (lower (byte c) - byte "a" + 10 >=? 10) eqn:Hge; [done|].
    rewrite Z.geb_leb in Hge. apply Z.leb_gt in Hge. lia.
Qed.

(** Where the loop of [ParseUint] ends without error, the bytes were decimal
    digits and the result is the number they denote. *)
Lemma ParseUint_loop_sound s : forall n un,
  0 <= n <= 2 ^ 32 - 1 ->
  ParseUint_loop s 10 (maxUint64 / 10 + 1) (2 ^ 32 - 1) n = (un, None) ->
  decimal s n = Some un.
Proof.
  induction s as [|c rest IH]; intros n un Hn H; cbn [ParseUint_loop] in H.
  - by injection H as <-.
  - destruct (digit c 10) as [d|] eqn:Hd; [|done].
    apply digit_10_inv in Hd as [Hc ->].
    cbn [decimal]. rewrite Hc.
    apply andb_true_iff in Hc as [H0 H9]. apply Z.leb_le in H0, H9.
    change (byte "9") with (byte "0" + 9) in H9.
    set (d := byte c - byte "0") in *.
    assert (Hcut : maxUint64 / 10 + 1 = 1844674407370955162) by reflexivity.
    rewrite Hcut in H.
    destruct (n >=? 1844674407370955162); [done|].
    cbv zeta in H.
    rewrite (uint64_small (n * 10)) in H by lia.
    rewrite (uint64_small (n * 10 + d)) in H by lia.
    destruct (n * 10 + d <? n * 10); cbn [orb] in H; [done|].
    destruct (n * 10 + d >? 2 ^ 32 - 1) eqn:Hgt; [done|].
    rewrite Z.gtb_ltb in Hgt. apply Z.ltb_ge in Hgt.
    replace (10 * n + d) with (n * 10 + d) by lia.
    rewrite <- Hcut in H. apply IH; [lia | done].
Qed.

Lemma ParseUint_sound s un :
  ParseUint s 10 32 = (un, None) ->
  s <> EmptyString /\ decimal s 0 = Some un /\ 0 <= un <= 2 ^ 32 - 1.
Proof.
  intros H. pose proof (ParseUint_result s un None H) as Hr.
  destruct s as [|c rest]; [done|].
  split; [done|]. split; [|done].
  unfold ParseUint in H.
  change (uint64 (uint64 (Z.shiftl 1 32) - 1)) with (2 ^ 32 - 1) in H.
  apply ParseUint_loop_sound in H; [done | lia].
Qed.

(** What [ParseInt] accepts: an optional sign and then decimal digits, at
    least one, that denote the magnitude of the result. *)
Lemma ParseInt_inv s n :
  ParseInt s 10 32 = (n, None) ->
  exists (neg : bool) digits un,
    digits <> EmptyString /\
    decimal digits 0 = Some un /\
    n = (if neg then - un else un) /\
    - 2 ^ 31 <= n < 2 ^ 31 /\
    (s = digits /\ neg = false \/
     s = String "+" digits /\ neg = false \/
     s = String "-" digits /\ neg = true).
Proof.
  intros H. pose proof (ParseInt_ok_range s n H) as Hr.
  unfold ParseInt in H. destruct s as [|c0 rest]; [done|].
  change (uint64 (Z.shiftl 1 (32 - 1))) with (2 ^ 31) in H.
  assert (Hgen : forall neg s',
    (let '(un, err) := ParseUint s' 10 32 in
     match err with
     | Some ErrSyntax => (0, Some ErrSyntax)
     | _ =>
         if negb neg && (un >=? 2 ^ 31) then (int64 (2 ^ 31 - 1), Some ErrRange)
         else if neg && (un >? 2 ^ 31) then (int64 (- int64 (2 ^ 31)), Some ErrRange)
         else (if neg then int64 (- int64 un) else int64 un, None)
     end) = (n, None) ->
    exists un, s' <> EmptyString /\ decimal s' 0 = Some un /\
               n = (if neg then - un else un)).
  { intros neg s'. destruct (ParseUint s' 10 32) as [un err] eqn:HU.
    destruct err as [[]|].
    - done.
    - apply ParseUint_result in HU. subst un. destruct neg; cbn; done.
    - apply ParseUint_sound in HU as (Hne & Hd & Hun).
      intros H'. exists un. split; [done|]. split; [done|].
      destruct neg; cbn [negb andb] in H'.
      + destruct (un >? 2 ^ 31) eqn:Hgt; [done|].
        rewrite Z.gtb_ltb in Hgt. apply Z.ltb_ge in Hgt.
        injection H' as <-. rewrite (int64_small un) by lia. rewrite int64_small; lia.
      + destruct (un >=? 2 ^ 31) eqn:Hge; [done|].
        rewrite Z.geb_leb in Hge. apply Z.leb_gt in Hge.
        injection H' as <-. rewrite int64_small; lia. }
  destruct (Ascii.eqb_spec c0 "+") as [->|Hp].
  { apply Hgen in H as (un & Hne & Hd & Hn). exists false, rest, un.
    do 4 (split; [done|]). right. by left. }
  destruct (Ascii.eqb_spec c0 "-") as [->|Hm].
  { apply Hgen in H as (un & Hne & Hd & Hn). exists true, rest, un.
    do 4 (split; [done|]). right. by right. }
  apply Hgen in H as (un & Hne & Hd & Hn). exists false, (String c0 rest), un.
  do 4 (split; [done|]). by left.
Qed.

(** The length test of [parseTagId] on a string that is not empty. *)
Lemma length_nonempty s :
  s <> EmptyString -> (Z.of_nat (String.length s) <=? 0) = false.
Proof.
  destruct s as [|c rest]; [done|]. intros _.
  cbn [String.length]. apply Z.leb_gt. lia.
Qed.

(** Where [parseTagId] returns a tag id that is not zero, the conversion
    succeeded on a string and gave that positive number. *)
Lemma parseTagId_ok_inv val n :
  parseTagId val = (n, None) ->
  n <> 0 ->
  exists s, FValue val = VString s /\ ParseInt s 10 32 = (n, None) /\ 0 < n.
Proof.
  unfold parseTagId. intros H Hn.
  destruct (FValue val) as [| | |s| |]; try (by simplify_eq).
  destruct (Z.of_nat (String.length s) <=? 0); [by simplify_eq|].
  destruct (ParseInt s 10 32) as [tagId [err|]] eqn:HP; [done|].
  destruct (tagId <=? 0) eqn:Hle; [done|]. apply Z.leb_gt in Hle.
  pose proof (ParseInt_ok_range s tagId HP) as Hr.
  rewrite uint32_small in H by lia. injection H as <-.
  by exists s.
Qed.

(** X1. Whenever [ExtractTagID] returns a tag id other than 0 without
    error, the first field with the configured name holds a string made of
    an optional plus sign and then decimal digits only, at least one; the
    digits denote the tag id, which lies between 1 and [2^31 - 1]. No
    other text (spaces, hexadecimal, underscores) yields a tag id. *)
Theorem ExtractTagID_sound c cfg n :
  ExtractTagID c cfg = (n, None) ->
  n <> 0 ->
  exists val digits,
    fieldNamed (TagIdFieldName cfg) (FieldValues c) = Some val /\
    (FValue val = VString digits \/ FValue val = VString (String "+" digits)) /\
    digits <> EmptyString /\
    decimal digits 0 = Some n /\
    0 < n < 2 ^ 31.
Proof.
  intros H Hn. rewrite ExtractTagID_fieldNamed in H.
  destruct (fieldNamed _ _) as [val|]; [|by injection H as <-].
  apply parseTagId_ok_inv in H as (s & Hs & HP & Hpos); [|done].
  apply ParseInt_inv in HP as (neg & digits & un & Hne & Hd & Hval & Hr & Hshape).
  pose proof (decimal_ge digits 0 un (Z.le_refl 0) Hd) as Hun.
  assert (neg = false) as -> by (destruct neg; [lia | done]).
  subst un. exists val, digits.
  split; [done|]. split; [|split_and!; done || lia].
  destruct Hshape as [[-> _]|[[-> _]|[_ [=]]]]; [by left | by right].
Qed.

Lemma ExtractTagID_sound_witness :
  exists val digits,
    fieldNamed (TagIdFieldName sampleConfig) (FieldValues contactPlusTag) = Some val /\
    (FValue val = VString digits \/ FValue val = VString (String "+" digits)) /\
    digits <> EmptyString /\
    decimal digits 0 = Some 42 /\
    0 < 42 < 2 ^ 31.
Proof.
  apply (ExtractTagID_sound contactPlusTag sampleConfig 42).
  - reflexivity.
  - discriminate.
Defined.

(** Beside an error [ExtractTagID] returns the tag id 0. *)
Lemma ExtractTagID_error_zero c cfg tagID e :
  ExtractTagID c cfg = (tagID, Some e) -> tagID = 0.
Proof.
  rewrite ExtractTagID_fieldNamed.
  destruct (fieldNamed _ _) as [val|]; [|done].
  unfold parseTagId.
  destruct (FValue val) as [| | |s| |]; try (by intros [= <- _]).
  destruct (Z.of_nat (String.length s) <=? 0); [done|].
  destruct (ParseInt s 10 32) as [n [err|]]; [by intros [= <- _]|].
  destruct (n <=? 0); [by intros [= <- _] | done].
Qed.

(** X4. For every contact and configuration the tag id that
    [ExtractTagID] returns lies between 0 and [2^31 - 1], and it is 0
    whenever an error is returned. *)
Theorem ExtractTagID_bounds c cfg :
  0 <= fst (ExtractTagID c cfg) < 2 ^ 31 /\
  (snd (ExtractTagID c cfg) <> None -> fst (ExtractTagID c cfg) = 0).
Proof.
  assert (Hz : forall e : option error,
             0 <= fst (0, e) < 2 ^ 31 /\ (snd (0, e) <> None -> fst (0, e) = 0)).
  { intros e. cbn [fst snd]. split; [lia | done]. }
  rewrite ExtractTagID_fieldNamed.
  destruct (fieldNamed _ _) as [val|]; [|apply Hz].
  unfold parseTagId.
  destruct (FValue val) as [| | |s| |]; try apply Hz.
  destruct (Z.of_nat (String.length s) <=? 0); [apply Hz|].
  destruct (ParseInt s 10 32) as [tagId [err|]] eqn:HP; [apply Hz|].
  destruct (tagId <=? 0) eqn:Hle; [apply Hz|].
  apply Z.leb_gt in Hle. pose proof (ParseInt_ok_range s tagId HP) as Hr.
  cbn [fst snd]. rewrite uint32_small by lia. split; [lia | done].
Qed.

(** X5. A tag id field of decimal digits that denote zero (["0"],
    ["000"]) is an error, "TagId value is non-positive", although the empty
    string gives 0 without error. *)
Theorem ExtractTagID_zero_digits c cfg val s :
  fieldNamed (TagIdFieldName cfg) (FieldValues c) = Some val ->
  FValue val = VString s ->
  s <> EmptyString ->
  decimal s 0 = Some 0 ->
  ExtractTagID c cfg = (0, Some ErrTagIdNonPositive).
Proof.
  intros Hval Hs Hne Hd.
  rewrite ExtractTagID_fieldNamed, Hval. unfold parseTagId.
  rewrite Hs, (length_nonempty s Hne).
  by rewrite (ParseInt_decimal s 0 Hne Hd).
Qed.

Lemma ExtractTagID_zero_digits_witness :
  ExtractTagID contactZeroTag sampleConfig = (0, Some ErrTagIdNonPositive).
Proof.
  apply (ExtractTagID_zero_digits contactZeroTag sampleConfig
           (field "TagId" (VString "0")) "0").
  - reflexivity.
  - reflexivity.
  - discriminate.
  - reflexivity.
Defined.

(** X6. A tag id field whose string starts with a minus sign always gives
    an error, whatever follows the sign. *)
Theorem ExtractTagID_minus_sign c cfg val rest :
  fieldNamed (TagIdFieldName cfg) (FieldValues c) = Some val ->
  FValue val = VString (String "-" rest) ->
  exists e, ExtractTagID c cfg = (0, Some e).
Proof.
  intros Hval Hs.
  rewrite ExtractTagID_fieldNamed, Hval. unfold parseTagId.
  rewrite Hs, length_nonempty by done.
  destruct (ParseInt (String "-" rest) 10 32) as [n [err|]] eqn:HP; [by eexists|].
  apply ParseInt_inv in HP as (neg & digits & un & Hne & Hd & Hn & Hr & Hshape).
  pose proof (decimal_ge digits 0 un (Z.le_refl 0) Hd) as Hun.
  destruct Hshape as [[<- _]|[[[=] _]|[_ ->]]].
  - cbn in Hd. discriminate Hd.
  - assert (Hle : (n <=? 0) = true) by (apply Z.leb_le; lia).
    rewrite Hle. by eexists.
Qed.

Lemma ExtractTagID_minus_sign_witness :
  exists e, ExtractTagID contactNegativeTag sampleConfig = (0, Some e).
Proof.
  apply (ExtractTagID_minus_sign contactNegativeTag sampleConfig
           (field "TagId" (VString "-5")) "5"); reflexivity.
Defined.

(** X7. A plus sign before the decimal digits is accepted: the tag id is
    the number the digits denote, when it lies between 1 and [2^31 - 1]. *)
Theorem ExtractTagID_plus_sign c cfg val digits v :
  fieldNamed (TagIdFieldName cfg) (FieldValues c) = Some val ->
  FValue val = VString (String "+" digits) ->
  digits <> EmptyString ->
  decimal digits 0 = Some v ->
  0 < v < 2 ^ 31 ->
  ExtractTagID c cfg = (v, None).
Proof.
  intros Hval Hs Hne Hd Hv.
  rewrite ExtractTagID_fieldNamed, Hval. unfold parseTagId.
  rewrite Hs, length_nonempty by done.
  assert (HP : ParseInt (String "+" digits) 10 32 = (v, None)).
  { unfold ParseInt. cbn [Ascii.eqb Bool.eqb].
    rewrite (ParseUint_decimal digits v Hne Hd).
    destruct (v <=? 2 ^ 32 - 1) eqn:Hle; [|apply Z.leb_gt in Hle; lia].
    change (uint64 (Z.shiftl 1 (32 - 1))) with (2 ^ 31). cbn [negb andb].
    destruct (v >=? 2 ^ 31) eqn:Hge; [apply Z.geb_le in Hge; lia|].
    by rewrite int64_small by lia. }
  rewrite HP.
  destruct (v <=? 0) eqn:Hle; [apply Z.leb_le in Hle; lia|].
  by rewrite uint32_small by lia.
Qed.

Lemma ExtractTagID_plus_sign_witness :
  ExtractTagID contactPlusTag sampleConfig = (42, None).
Proof.
  apply (ExtractTagID_plus_sign contactPlusTag sampleConfig
           (field "TagId" (VString "+0042")) "0042" 42).
  - reflexivity.
  - reflexivity.
  - discriminate.
  - reflexivity.
  - split; reflexivity.
Defined.

Lemma ExtractTagID_decimal_witness :
  ExtractTagID contact1023 sampleConfig = (1023, None).
Proof.
  apply (ExtractTagID_decimal contact1023 sampleConfig
           (field "TagId" (VString "1023")) "1023" 1023).
  - reflexivity.
  - reflexivity.
  - discriminate.
  - reflexivity.
  - split; reflexivity.
Defined.

Lemma ExtractTagID_decimal_out_of_range_witness :
  ExtractTagID contactWideTag sampleConfig = (0, Some (ErrTagIdConvert ErrRange)).
Proof.
  apply (ExtractTagID_decimal_out_of_range contactWideTag sampleConfig
           (field "TagId" (VString "4294967295")) "4294967295" 4294967295).
  - reflexivity.
  - reflexivity.
  - discriminate.
  - reflexivity.
  - discriminate.
Defined.

(** ** Fields with other names *)

Lemma ExtractTagID_loop_filter vals cfg :
  ExtractTagID_loop vals cfg =
  ExtractTagID_loop (filter (fun v => FieldName v = TagIdFieldName cfg) vals) cfg.
Proof.
  induction vals as [|val rest IH]; [done|].
  rewrite filter_cons. cbn [ExtractTagID_loop].
  destruct (String.eqb_spec (FieldName val) (TagIdFieldName cfg)) as [Heq|Hne].
  - rewrite decide_True by done. cbn [ExtractTagID_loop].
    by destruct (String.eqb_spec (FieldName val) (TagIdFieldName cfg)).
  - by rewrite decide_False.
Qed.

Lemma ExtractTrainingLabels_loop_filter vals cfg :
  ExtractTrainingLabels_loop vals cfg =
  ExtractTrainingLabels_loop
    (filter (fun v => FieldName v = TrainingFieldName cfg) vals) cfg.
Proof.
  induction vals as [|val rest IH]; [done|].
  rewrite filter_cons. cbn [ExtractTrainingLabels_loop].
  destruct (String.eqb_spec (FieldName val) (TrainingFieldName cfg)) as [Heq|Hne].
  - rewrite decide_True by done. cbn [ExtractTrainingLabels_loop].
    by destruct (String.eqb_spec (FieldName val) (TrainingFieldName cfg)).
  - by rewrite decide_False.
Qed.

(** X8. The extractors read nothing but the fields that carry the
    configured name: two contacts whose fields of that name are the same,
    in the same order, give the same tag id result, and likewise the same
    training label result. *)
Theorem extractors_ignore_other_fields c c' cfg :
  (filter (fun v => FieldName v = TagIdFieldName cfg) (FieldValues c)
     = filter (fun v => FieldName v = TagIdFieldName cfg) (FieldValues c') ->
   ExtractTagID c cfg = ExtractTagID c' cfg) /\
  (filter (fun v => FieldName v = TrainingFieldName cfg) (FieldValues c)
     = filter (fun v => FieldName v = TrainingFieldName cfg) (FieldValues c') ->
   ExtractTrainingLabels c cfg = ExtractTrainingLabels c' cfg).
Proof.
  split; intros H.
  - unfold ExtractTagID.
    rewrite (ExtractTagID_loop_filter (FieldValues c)), H.
    by rewrite <- ExtractTagID_loop_filter.
  - unfold ExtractTrainingLabels.
    rewrite (ExtractTrainingLabels_loop_filter (FieldValues c)), H.
    by rewrite <- ExtractTrainingLabels_loop_filter.
Qed.

Lemma extractors_ignore_other_fields_witness :
  ExtractTagID contactDuplicates sampleConfig
    = ExtractTagID contactTagFieldsOnly sampleConfig /\
  ExtractTrainingLabels contactDuplicates sampleConfig
    = ExtractTrainingLabels contactTrainingFieldsOnly sampleConfig.
Proof.
  split.
  - apply (proj1 (extractors_ignore_other_fields
                    contactDuplicates contactTagFieldsOnly sampleConfig)).
    reflexivity.
  - apply (proj2 (extractors_ignore_other_fields
                    contactDuplicates contactTrainingFieldsOnly sampleConfig)).
    reflexivity.
Defined.

(** ** Training labels *)

Lemma parseTrainingLabels_loop_first_bad good : forall acc bad rest,
  Forall (fun item => is_Some (labelOf item)) good ->
  labelOf bad = None ->
  parseTrainingLabels_loop (good ++ bad :: rest) acc =
    ([], Some (match bad with
               | VMap _ => ErrTrainingLabelNotString
               | _ => ErrTrainingItemNotMap
               end)).
Proof.
  induction good as [|t good IH]; intros acc bad rest Hgood Hbad.
  - cbn [app parseTrainingLabels_loop].
    destruct bad as [| | | | |m]; try done.
    rewrite extractLabelFromTrainingMap_labelOf. by rewrite Hbad.
  - apply Forall_cons in Hgood as [[l Hl] Hgood].
    destruct t as [| | | | |m]; try discriminate Hl.
    cbn [app parseTrainingLabels_loop].
    rewrite extractLabelFromTrainingMap_labelOf, Hl. by apply IH.
Qed.

Lemma parseTrainingLabels_loop_ok_inv items : forall acc labels,
  parseTrainingLabels_loop items acc = (labels, None) ->
  exists ls, mapM labelOf items = Some ls /\ labels = acc ++ ls.
Proof.
  induction items as [|t rest IH]; intros acc labels H;
    cbn [parseTrainingLabels_loop] in H.
  - injection H as <-. exists []. by rewrite app_nil_r.
  - destruct t as [| | | | |m]; try discriminate H.
    rewrite extractLabelFromTrainingMap_labelOf in H.
    destruct (labelOf (VMap m)) as [l|] eqn:Hl; [|discriminate H].
    apply IH in H as (ls & Hls & ->).
    exists (l :: ls). split; [|by rewrite <- app_assoc].
    change (mapM labelOf (VMap m :: rest))
      with (labelOf (VMap m) ≫= fun y => mapM labelOf rest ≫= fun k => mret (y :: k)).
    by rewrite Hl, Hls.
Qed.

(** X10. The first item of the training list that is not a record with a
    string ["Label"] decides the error: "training item is not a map" when it
    is no record, "training label is not a string" when it is a record; the
    items after it are not looked at. *)
Theorem ExtractTrainingLabels_first_bad_item c cfg val good bad rest :
  fieldNamed (TrainingFieldName cfg) (FieldValues c) = Some val ->
  FValue val = VSlice (good ++ bad :: rest) ->
  Forall (fun item => is_Some (labelOf item)) good ->
  labelOf bad = None ->
  ExtractTrainingLabels c cfg =
    ([], Some (match bad with
               | VMap _ => ErrTrainingLabelNotString
               | _ => ErrTrainingItemNotMap
               end)).
Proof.
  intros Hval Hv Hgood Hbad.
  rewrite ExtractTrainingLabels_fieldNamed, Hval.
  unfold parseTrainingLabels. rewrite Hv.
  by apply parseTrainingLabels_loop_first_bad.
Qed.

Lemma ExtractTrainingLabels_first_bad_item_witness :
  ExtractTrainingLabels contactItemNotMap sampleConfig
    = ([], Some ErrTrainingItemNotMap).
Proof.
  apply (ExtractTrainingLabels_first_bad_item contactItemNotMap sampleConfig
           (field "Trainings"
              (VSlice [trainingItem "Laser"; VString "WoodShop"; VMap ∅]))
           [trainingItem "Laser"] (VString "WoodShop") [VMap ∅]).
  - reflexivity.
  - reflexivity.
  - apply Forall_cons. split; [|apply Forall_nil_2].
    exists "Laser"%string. reflexivity.
  - reflexivity.
Defined.

(** X11. [ExtractTrainingLabels] returns [labels] without error exactly
    when the training field is absent and [labels] is empty, or the first
    field of that name holds a list whose items all are records with a
    string ["Label"] and [labels] are those labels in order. *)
Theorem ExtractTrainingLabels_ok_iff c cfg labels :
  ExtractTrainingLabels c cfg = (labels, None) <->
  (fieldNamed (TrainingFieldName cfg) (FieldValues c) = None /\ labels = []) \/
  (exists val items,
     fieldNamed (TrainingFieldName cfg) (FieldValues c) = Some val /\
     FValue val = VSlice items /\
     mapM labelOf items = Some labels).
Proof.
  rewrite ExtractTrainingLabels_fieldNamed. split.
  - destruct (fieldNamed _ _) as [val|]; [|intros [= <-]; by left].
    unfold parseTrainingLabels.
    destruct (FValue val) as [| | | |items|] eqn:Hv; try done.
    intros H. apply parseTrainingLabels_loop_ok_inv in H as (ls & Hls & ->).
    right. by exists val, items.
  - intros [[-> ->]|(val & items & -> & Hv & Hl)]; [done|].
    unfold parseTrainingLabels. rewrite Hv.
    by rewrite (parseTrainingLabels_loop_labels items [] labels Hl).
Qed.

Lemma ExtractTrainingLabels_labels_witness :
  ExtractTrainingLabels contactTwoTrainings sampleConfig
    = (["Laser"; "WoodShop"; "Laser"]%string, None).
Proof.
  apply (ExtractTrainingLabels_labels contactTwoTrainings sampleConfig
           (field "Trainings"
              (VSlice [trainingItem "Laser"; trainingItem "WoodShop";
                       trainingItem "Laser"]))
           [trainingItem "Laser"; trainingItem "WoodShop"; trainingItem "Laser"]);
    reflexivity.
Defined.

(** ** The two extractors together *)

(** X12. [ExtractContactData] returns without error exactly when both
    extractors do, and then it returns the id of the contact with the tag
    id and the labels they returned. *)
Theorem ExtractContactData_ok_iff c cfg id tagID labels :
  ExtractContactData c cfg = (id, tagID, labels, None) <->
  id = Id c /\
  ExtractTagID c cfg = (tagID, None) /\
  ExtractTrainingLabels c cfg = (labels, None).
Proof.
  unfold ExtractContactData.
  destruct (ExtractTagID c cfg) as [t [e|]].
  { split; [done | by intros (_ & [=] & _)]. }
  destruct (ExtractTrainingLabels c cfg) as [ls [e|]].
  { split; [done | by intros (_ & _ & [=])]. }
  split.
  - by intros [= <- <- <-].
  - by intros (-> & [= ->] & [= ->]).
Qed.

(** X13. When the configuration gives the tag id field and the training
    field the same name, [ExtractContactData] returns an error for every
    contact that has a field of that name: no value is both a tag id and a
    training list. *)
Theorem same_field_name_always_fails c cfg val :
  TagIdFieldName cfg = TrainingFieldName cfg ->
  fieldNamed (TagIdFieldName cfg) (FieldValues c) = Some val ->
  exists e, snd (ExtractContactData c cfg) = Some e.
Proof.
  intros Hname Hval. unfold ExtractContactData.
  rewrite ExtractTagID_fieldNamed, ExtractTrainingLabels_fieldNamed.
  rewrite <- Hname, Hval.
  unfold parseTagId, parseTrainingLabels.
  destruct (FValue val) as [| | |s| |]; try by eexists.
  destruct (Z.of_nat (String.length s) <=? 0); [by eexists|].
  destruct (ParseInt s 10 32) as [n [err|]]; [by eexists|].
  destruct (n <=? 0); by eexists.
Qed.

Lemma same_field_name_always_fails_witness :
  exists e, snd (ExtractContactData contact1023 collidingConfig) = Some e.
Proof.
  apply (same_field_name_always_fails contact1023 collidingConfig
           (field "TagId" (VString "1023"))); reflexivity.
Defined.


Lemma updateDatabaseFromWildApricot_failed {Store Remote E}
    (GetContacts : Z -> Store * Remote -> (list Contact * option E) * (Store * Remote))
    (ProcessContactsData : list Contact -> Store * Remote -> option E * (Store * Remote))
    (accountId : Z) (w : World Store Remote E) contacts e st rm :
  GetContacts accountId (store w, remote w) = ((contacts, Some e), (st, rm)) ->
  updateDatabaseFromWildApricot GetContacts ProcessContactsData accountId w =
    (tt, mkWorld st rm
           (trace w ++ [EvLog LogFetching; EvGetContacts accountId;
                        EvLog (LogFetchFailed e)])).
Proof.
  intros HG.
  unfold updateDatabaseFromWildApricot, callGetContacts, log, emit, bind.
  cbn. rewrite HG. cbn. by rewrite <- !app_assoc.
Qed.

(** X15. In one cycle [ProcessContactsData] is called with the contacts
    [cs] exactly when [GetContacts] returned [cs] and no error: never after
    a failed fetch, and never with other contacts than the fetched ones. *)
Theorem ProcessContactsData_iff_fetched {Store Remote E}
    (GetContacts : Z -> Store * Remote -> (list Contact * option E) * (Store * Remote))
    (ProcessContactsData : list Contact -> Store * Remote -> option E * (Store * Remote))
    (accountId : Z) (w : World Store Remote E) (cs : list Contact) :
  EvProcessContactsData cs ∈
    drop (length (trace w))
      (trace (snd (updateDatabaseFromWildApricot
                     GetContacts ProcessContactsData accountId w)))
  <-> fst (GetContacts accountId (store w, remote w)) = (cs, None).
Proof.
  destruct (GetContacts accountId (store w, remote w))
    as [[contacts [e|]] [st rm]] eqn:HG.
  - rewrite (updateDatabaseFromWildApricot_failed _ _ _ _ _ _ _ _ HG).
    cbn [snd fst trace]. rewrite drop_app_length.
    rewrite !elem_of_cons, elem_of_nil. split; [|done].
    intros [H|[H|[H|[]]]]; discriminate H.
  - destruct (ProcessContactsData contacts (st, rm)) as [r [st' rm']] eqn:HP.
    rewrite (updateDatabaseFromWildApricot_fetched _ _ _ _ _ _ _ _ _ _ HG HP).
    cbn [snd fst trace]. rewrite drop_app_length.
    rewrite !elem_of_cons, elem_of_nil. split.
    + intros [H|[H|[H|[H|[]]]]]; try discriminate H. by injection H as ->.
    + intros [= ->]. right. right. by left.
Qed.

(** One cycle, whatever the services do: the events it adds. *)
Lemma updateDatabaseFromWildApricot_counts {Store Remote E}
    (GetContacts : Z -> Store * Remote -> (list Contact * option E) * (Store * Remote))
    (ProcessContactsData : list Contact -> Store * Remote -> option E * (Store * Remote))
    (accountId : Z) (w : World Store Remote E) :
  let w' := snd (updateDatabaseFromWildApricot
                   GetContacts ProcessContactsData accountId w) in
  length (List.filter (isGetContacts accountId) (trace w'))
    = S (length (List.filter (isGetContacts accountId) (trace w))).
Proof.
  assert (Ha : (accountId =? accountId) = true) by apply Z.eqb_refl.
  destruct (GetContacts accountId (store w, remote w))
    as [[contacts [e|]] [st rm]] eqn:HG.
  - rewrite (updateDatabaseFromWildApricot_failed _ _ _ _ _ _ _ _ HG).
    cbn [snd trace]. rewrite List.filter_app, length_app.
    cbn [List.filter isGetContacts]. rewrite Ha. cbn [length]. lia.
  - destruct (ProcessContactsData contacts (st, rm)) as [r [st' rm']] eqn:HP.
    rewrite (updateDatabaseFromWildApricot_fetched _ _ _ _ _ _ _ _ _ _ HG HP).
    cbn [snd trace]. rewrite List.filter_app, length_app.
    cbn [List.filter isGetContacts]. rewrite Ha. cbn [length]. lia.
Qed.

(** X16. The background task calls [GetContacts] for the configured
    account once for every tick it receives, whatever the earlier cycles
    returned: a failed fetch or a failed update neither stops the task nor
    delays or repeats a fetch. *)
Theorem backgroundTask_fetches_every_tick {Store Remote E}
    (GetContacts : Z -> Store * Remote -> (list Contact * option E) * (Store * Remote))
    (ProcessContactsData : list Contact -> Store * Remote -> option E * (Store * Remote))
    (ticks : nat) (cfg : Config) (w : World Store Remote E) :
  length (List.filter (isGetContacts (WildApricotAccountId cfg))
            (trace (backgroundTask GetContacts ProcessContactsData ticks cfg w)))
  = (length (List.filter (isGetContacts (WildApricotAccountId cfg)) (trace w))
     + ticks)%nat.
Proof.
  revert w. induction ticks as [|n IH]; intros w; cbn [backgroundTask].
  - lia.
  - rewrite IH.
    pose proof (updateDatabaseFromWildApricot_counts
                  GetContacts ProcessContactsData (WildApricotAccountId cfg) w) as H.
    cbv zeta in H. rewrite H. lia.
Qed.

(** X17. While every fetch fails without writing the Store, any number of
    ticks leaves the Store as it was and adds no call of
    [ProcessContactsData]. *)
Theorem backgroundTask_fetch_always_failing {Store Remote E}
    (GetContacts : Z -> Store * Remote -> (list Contact * option E) * (Store * Remote))
    (ProcessContactsData : list Contact -> Store * Remote -> option E * (Store * Remote))
    (ticks : nat) (cfg : Config) (w : World Store Remote E) :
  (forall st rm, exists contacts e rm',
     GetContacts (WildApricotAccountId cfg) (st, rm)
       = ((contacts, Some e), (st, rm'))) ->
  let w' := backgroundTask GetContacts ProcessContactsData ticks cfg w in
  store w' = store w /\
  length (List.filter isProcessContactsData (trace w'))
    = length (List.filter isProcessContactsData (trace w)).
Proof.
  intros Hfail. cbv zeta. revert w.
  induction ticks as [|n IH]; intros w; cbn [backgroundTask]; [done|].
  destruct (Hfail (store w) (remote w)) as (contacts & e & rm' & HG).
  rewrite (updateDatabaseFromWildApricot_failed _ _ _ _ _ _ _ _ HG).
  cbn [snd]. destruct (IH (mkWorld (store w) rm'
      (trace w ++ [EvLog LogFetching; EvGetContacts (WildApricotAccountId cfg);
                   EvLog (LogFetchFailed e)]))) as [Hs Ht].
  rewrite Hs, Ht. cbn [store trace]. split; [done|].
  rewrite List.filter_app, length_app. cbn. lia.
Qed.

Lemma backgroundTask_fetch_always_failing_witness :
  let w' := backgroundTask unreachableGetContacts recordContactIds 3
              sampleConfig sampleWorld in
  store w' = store sampleWorld /\
  length (List.filter isProcessContactsData (trace w'))
    = length (List.filter isProcessContactsData (trace sampleWorld)).
Proof.
  apply (backgroundTask_fetch_always_failing unreachableGetContacts
           recordContactIds 3 sampleConfig sampleWorld).
  intros st rm. exists [], "connection refused"%string, false. reflexivity.
Defined.

(** X18. Every error of [ExtractContactData] comes without labels and
    wraps the error of one extractor together with the id of the contact:
    of [ExtractTagID], and then the contact id and the tag id returned are
    0, or of [ExtractTrainingLabels], and then the contact id and the tag
    id that [ExtractTagID] found are returned. *)
Theorem ExtractContactData_error_inv c cfg id tagID labels e :
  ExtractContactData c cfg = (id, tagID, labels, Some e) ->
  labels = [] /\
  ((exists e', ExtractTagID c cfg = (0, Some e') /\
               id = 0 /\ tagID = 0 /\ e = ErrExtractingTagId (Id c) e') \/
   (exists e', ExtractTagID c cfg = (tagID, None) /\
               ExtractTrainingLabels c cfg = ([], Some e') /\
               id = Id c /\ e = ErrExtractingLabels (Id c) e')).
Proof.
  unfold ExtractContactData.
  destruct (ExtractTagID c cfg) as [t [e1|]] eqn:HT.
  - intros [= <- <- <- <-]. split; [done|]. left. exists e1.
    by rewrite (ExtractTagID_error_zero c cfg t e1 HT).
  - destruct (ExtractTrainingLabels c cfg) as [ls [e2|]] eqn:HL; [|done].
    intros [= <- <- <- <-].
    pose proof (ExtractTrainingLabels_error c cfg ls e2 HL) as ->.
    split; [done|]. right. by exists e2.
Qed.

Lemma ExtractContactData_error_inv_witness :
  [] = @nil string /\
  ((exists e', ExtractTagID contactBadTraining sampleConfig = (0, Some e') /\
               3 = 0 /\ 77 = 0 /\
               ErrExtractingLabels 3 ErrTrainingLabelNotString
                 = ErrExtractingTagId (Id contactBadTraining) e') \/
   (exists e', ExtractTagID contactBadTraining sampleConfig = (77, None) /\
               ExtractTrainingLabels contactBadTraining sampleConfig
                 = ([], Some e') /\
               3 = Id contactBadTraining /\
               ErrExtractingLabels 3 ErrTrainingLabelNotString
                 = ErrExtractingLabels (Id contactBadTraining) e')).
Proof.
  apply (ExtractContactData_error_inv contactBadTraining sampleConfig
           3 77 [] (ErrExtractingLabels 3 ErrTrainingLabelNotString)).
  reflexivity.
Defined.

(** X14. When the fetch succeeds, the cycle calls [ProcessContactsData]
    once, after the fetch and with the fetched contacts; the Store is then
    the one that call returned, also when the call returned an error,
    which is only logged. *)
Theorem fetch_success_processes_once {Store Remote E}
    (GetContacts : Z -> Store * Remote -> (list Contact * option E) * (Store * Remote))
    (ProcessContactsData : list Contact -> Store * Remote -> option E * (Store * Remote))
    (accountId : Z) (w : World Store Remote E) contacts st rm :
  GetContacts accountId (store w, remote w) = ((contacts, None), (st, rm)) ->
  let w' := snd (updateDatabaseFromWildApricot
                   GetContacts ProcessContactsData accountId w) in
  let r := ProcessContactsData contacts (st, rm) in
  trace w' = trace w ++ [EvLog LogFetching; EvGetContacts accountId;
                         EvProcessContactsData contacts;
                         EvLog (match fst r with
                                | Some e => LogUpdateFailed e
                                | None => LogUpdated
                                end)] /\
  store w' = fst (snd r) /\
  remote w' = snd (snd r).
Proof.
  intros HG. cbv zeta.
  destruct (ProcessContactsData contacts (st, rm)) as [r [st' rm']] eqn:HP.
  by rewrite (updateDatabaseFromWildApricot_fetched _ _ _ _ _ _ _ _ _ _ HG HP).
Qed.

Lemma fetch_success_processes_once_witness :
  let w' := snd (updateDatabaseFromWildApricot
                   reachableGetContacts failingProcess 1 sampleWorld) in
  let r := failingProcess [contact1023] ([41; 42], true) in
  trace w' = trace sampleWorld ++
             [EvLog LogFetching; EvGetContacts 1;
              EvProcessContactsData [contact1023];
              EvLog (match fst r with
                     | Some e => LogUpdateFailed e
                     | None => LogUpdated
                     end)] /\
  store w' = fst (snd r) /\
  remote w' = snd (snd r).
Proof.
  apply (fetch_success_processes_once reachableGetContacts failingProcess 1
           sampleWorld [contact1023] [41; 42] true).
  reflexivity.
Defined.
